(** * Matcha: the [Matcha] model wrapper and the [AWP] controller of
    [src/model.py], shallowly embedded.

    Tensors are modelled as flat lists of exact rationals ([list Q]); every
    torch operation the source applies element-wise ([+], [-], [*], [abs],
    [torch.max], [torch.min]) is the corresponding [Q] operation mapped or
    zipped over the list.  Exact rationals have no inf or NaN, so the
    arithmetic facts proved here are about runs in which none occurs; the
    source's own guard only skips a NaN or zero gradient norm, and an inf
    gradient entry would pass it and write NaN.  The framework primitives the source calls but does
    not define ([torch.norm], [torch.isnan], the model's forward pass,
    [optimizer.zero_grad], [accelerator.backward]) are section variables:
    the theorems hold for whatever the framework does there, except where a
    theorem states what it needs of them as a hypothesis. *)

From Stdlib Require Import QArith Qminmax Qabs ZArith String List.
From Stdlib Require Import SpecFloat Lqa.
From stdpp Require Import base gmap strings list.

Open Scope Q_scope.

(** ** Parameters and the model's [named_parameters()] *)

(** A torch parameter: its value ([param.data]), its gradient slot
    ([param.grad], [None] when absent) and its [requires_grad] flag. *)
Record param := mkParam {
  data : list Q;
  grad : option (list Q);
  requires_grad : bool
}.

Definition set_data (p : param) (d : list Q) : param :=
  mkParam d (grad p) (requires_grad p).

Definition set_requires_grad (p : param) (b : bool) : param :=
  mkParam (data p) (grad p) b.

(** [model.named_parameters()]: the parameters in iteration order. *)
Abbreviation named := (list (string * param)).

(** The values of all parameters, by name. *)
Definition weights (ps : named) : list (string * list Q) :=
  map (fun np => (np.1, data np.2)) ps.

(** Python's substring test [sub in s]. *)
Fixpoint contains (sub s : string) : bool :=
  match s with
  | EmptyString => String.eqb sub EmptyString
  | String _ s' => String.prefix sub s || contains sub s'
  end.

(** A concrete tensor norm for running the definitions: square root of the
    sum of squares, exact when numerator and denominator of that sum are
    perfect squares. *)
Definition frob_norm (t : list Q) : Q :=
  let s := Qred (fold_right (fun x acc => x * x + acc) 0 t) in
  Z.sqrt (Qnum s) # Pos.sqrt (Qden s).

Module AWP.

(** The mutable state of an [AWP] object: [self.backup] and
    [self.backup_eps]. *)
Record awp := mkAWP {
  backup : gmap string (list Q);
  backup_eps : gmap string (list Q * list Q)
}.

(** [self.backup = {}; self.backup_eps = {}] in [__init__]. *)
Definition awp_init : awp := mkAWP ∅ ∅.

(** What [attack_backward] asks of the outside world, in order. *)
Inductive event := Forward | ZeroGrad | Backward.

(** A call either returns or raises (a [KeyError] in [_attack_step]); in both
    cases the controller state, the parameters and the external calls made so
    far are observable. *)
Inductive outcome :=
  | Returned (st : awp) (ps : named) (tr : list event)
  | Raised (st : awp) (ps : named) (tr : list event).

Section Controller.

(** [self.adv_param], [self.adv_lr], [self.adv_eps]. *)
Variable adv_param : string.
Variable adv_lr adv_eps : Q.

(** [torch.norm] and [torch.isnan] on a norm. *)
Variable norm : list Q -> Q.
Variable isnan : Q -> bool.

(** [e = 1e-6] in [_attack_step]. *)
Definition e : Q := 1 # 1000000.

(** The filter shared by [_save] and [_attack_step]:
    [param.requires_grad and param.grad is not None and self.adv_param in name]. *)
Definition matched (name : string) (p : param) : bool :=
  requires_grad p
  && match grad p with Some _ => true | None => false end
  && contains adv_param name.

(** One iteration of the loop of [_save]. *)
Definition save_one (st : awp) (np : string * param) : awp :=
  let '(name, p) := np in
  if matched name p then
    match backup st !! name with
    | Some _ => st
    | None =>
        let b := data p in                                  (* param.data.clone() *)
        let grad_eps := map (fun x => adv_eps * Qabs x) (data p) in
        mkAWP (<[name := b]> (backup st))
              (<[name := (zip_with Qminus b grad_eps,
                          zip_with Qplus b grad_eps)]> (backup_eps st))
    end
  else st.

Definition _save (st : awp) (ps : named) : awp := fold_left save_one ps st.

(** One iteration of the loop of [_attack_step]; the boolean is [false] when
    [self.backup_eps[name]] raises [KeyError], after [param.data.add_(r_at)]
    has already happened. *)
Definition attack_one (st : awp) (np : string * param) : (string * param) * bool :=
  let '(name, p) := np in
  match grad p with
  | Some g =>
      if matched name p then
        let norm1 := norm g in
        let norm2 := norm (data p) in
        if negb (Qeq_bool norm1 0) && negb (isnan norm1) then
          let r_at := map (fun gi => adv_lr * gi / (norm1 + e) * (norm2 + e)) g in
          let d := zip_with Qplus (data p) r_at in           (* add_ *)
          match backup_eps st !! name with
          | Some (lo, hi) =>
              ((name, set_data p (zip_with Qmin (zip_with Qmax d lo) hi)), true)
          | None => ((name, set_data p d), false)
          end
        else (np, true)
      else (np, true)
  | None => (np, true)
  end.

Fixpoint _attack_step (st : awp) (ps : named) : named * bool :=
  match ps with
  | [] => ([], true)
  | np :: rest =>
      let '(np', ok) := attack_one st np in
      if ok then
        let '(rest', ok') := _attack_step st rest in (np' :: rest', ok')
      else (np' :: rest, false)
  end.

(** One iteration of the loop of [_restore]. *)
Definition restore_one (st : awp) (np : string * param) : string * param :=
  let '(name, p) := np in
  match backup st !! name with
  | Some b => (name, set_data p b)
  | None => np
  end.

Definition _restore (st : awp) (ps : named) : awp * named :=
  (mkAWP ∅ ∅, map (restore_one st) ps).


(** The rest of [attack_backward]: [self.model(...)] on the batch, then
    [self.optimizer.zero_grad()] and [accelerator.backward(adv_loss)].  They
    are modelled by the calls that return: an error they raise (or one of the
    [batch[...]] lookups) propagates out of [attack_backward] before
    [_restore], and is outside this model. *)
Variable batch_t loss_t : Type.
Variable model_forward : named -> batch_t -> loss_t.
Variable zero_grad : named -> named.
Variable backward : loss_t -> named -> named.

Definition attack_backward (st : awp) (ps : named) (batch : batch_t) : outcome :=
  if Qeq_bool adv_lr 0 then Returned st ps [] else
  let st1 := _save st ps in
  let '(ps1, ok) := _attack_step st1 ps in
  if ok then
    let adv_loss := model_forward ps1 batch in
    let ps2 := zero_grad ps1 in
    let ps3 := backward adv_loss ps2 in
    let '(st4, ps4) := _restore st1 ps3 in
    Returned st4 ps4 [Forward; ZeroGrad; Backward]
  else Raised st1 ps1 [].


(** Controller states reachable from [__init__] through calls of
    [attack_backward] that return. *)
Inductive reachable : awp -> Prop :=
  | reachable_init : reachable awp_init
  | reachable_step st ps batch st' ps' tr :
      reachable st ->
      attack_backward st ps batch = Returned st' ps' tr ->
      reachable st'.

End Controller.
End AWP.

Module Matcha.

(** ** Python's [int(0.4 * n)] on binary64 floats *)

(** The double nearest to the literal [0.4]:
    [7205759403792794 * 2^-54]. *)
Definition lit_0_4 : spec_float := S754_finite false 7205759403792794 (-54).

(** [float(n)] for a Python [int] [n], rounded to nearest. *)
Definition float_of_nat (n : nat) : spec_float :=
  binary_normalize 53 1024 (Z.of_nat n) 0 false.

(** [int(x)] truncates towards zero; it raises on infinities and NaN. *)
Definition py_int (x : spec_float) : option Z :=
  match x with
  | S754_zero _ => Some 0%Z
  | S754_finite s m ex =>
      let z := if (0 <=? ex)%Z then Z.shiftl (Zpos m) ex
               else Z.shiftr (Zpos m) (- ex) in
      Some (if s then (- z)%Z else z)
  | _ => None
  end.

(** [to_freeze_layer = int(0.4 * backbone_config.num_hidden_layers)]. *)
Definition to_freeze_layer (num_hidden_layers : nat) : option Z :=
  py_int (SFmul 53 1024 lit_0_4 (float_of_nat num_hidden_layers)).

(** ** The parts of the backbone the constructor touches *)

(** [self.backbone.encoder.layer] (one list of named parameters per layer),
    [self.backbone.embeddings], and every other parameter of the backbone
    (the remaining encoder modules and the whole decoder). *)
Record backbone := mkBackbone {
  encoder_layer : list named;
  embeddings : named;
  other_params : named
}.

(** [for param in module.parameters(): param.requires_grad = False] *)
Definition freeze_params (ps : named) : named :=
  map (fun np => (np.1, set_requires_grad np.2 false)) ps.

(** Lines 50-57 of [Matcha.__init__]: freeze the slice
    [self.backbone.encoder.layer[:to_freeze_layer]], then the embeddings. *)
Definition freeze_encoder (num_hidden_layers : nat) (bb : backbone) : option backbone :=
  match to_freeze_layer num_hidden_layers with
  | Some k =>
      let n := Z.to_nat k in
      Some (mkBackbone
              (map freeze_params (firstn n (encoder_layer bb)) ++ skipn n (encoder_layer bb))
              (freeze_params (embeddings bb))
              (other_params bb))
  | None => None
  end.

(** ** [Matcha.forward] *)

Section Forward.

Variable patches_t mask_t labels_t outputs_t loss_t : Type.

(** [self.backbone(flattened_patches=..., attention_mask=..., labels=...)]
    and the [.loss] field of its result. *)
Variable backbone_forward : patches_t -> mask_t -> labels_t -> outputs_t.
Variable outputs_loss : outputs_t -> loss_t.

Definition forward (flattened_patches : patches_t) (attention_mask : mask_t)
    (labels : labels_t) : loss_t * gmap string loss_t :=
  let outputs := backbone_forward flattened_patches attention_mask labels in
  let loss_main := outputs_loss outputs in
  let loss := loss_main in
  let loss_dict : gmap string loss_t :=
    list_to_map [("loss_main", loss_main); ("loss_cls", loss)] in
  (loss, loss_dict).

End Forward.
End Matcha.

(** * A concrete instance, for running the definitions *)

Module Sample.

(** A model with a perturbable weight, a bias the filter does not match, a
    weight whose gradient is zero and a frozen weight. *)
Definition sample_params : named :=
  [("encoder.weight", mkParam [1; 2] (Some [3; 4]) true);
   ("encoder.bias", mkParam [5] (Some [1]) true);
   ("decoder.weight", mkParam [2] (Some [0]) true);
   ("embeddings.weight", mkParam [7] (Some [1]) false)].

(** Exact rationals are never NaN. *)
Definition no_nan (_ : Q) : bool := false.

(** A stand-in forward pass: the sum of all parameter values. *)
Definition sample_forward (ps : named) (_ : unit) : Q :=
  fold_right (fun np acc => fold_right Qplus acc (data np.2)) 0 ps.

(** [optimizer.zero_grad()] with [set_to_none=True]. *)
Definition sample_zero_grad (ps : named) : named :=
  map (fun np => (np.1, mkParam (data np.2) None (requires_grad np.2))) ps.

(** A stand-in [backward]: fills every gradient slot with the loss. *)
Definition sample_backward (l : Q) (ps : named) : named :=
  map (fun np => (np.1, mkParam (data np.2) (Some (map (fun _ => l) (data np.2)))
                                 (requires_grad np.2))) ps.

(** A three-layer backbone whose parameters would all pass the [AWP]
    filter for ["weight"] if they were trainable. *)
Definition sample_backbone : Matcha.backbone :=
  Matcha.mkBackbone
    [[("encoder.layer.0.weight", mkParam [1; 2] (Some [3; 4]) true)];
     [("encoder.layer.1.weight", mkParam [5] (Some [1]) true)];
     [("encoder.layer.2.weight", mkParam [6] (Some [2]) true)]]
    [("embeddings.weight", mkParam [7] (Some [1]) true)]
    [("decoder.weight", mkParam [2] (Some [1]) true)].

End Sample.

(** * The substring test *)

Module ContainsFacts.

Lemma prefix_spec sub s :
  String.prefix sub s = true <-> exists b, s = String.append sub b.
Proof.
  revert s. induction sub as [|a sub IH]; intros s.
  - split; [intros _; exists s; done | intros; destruct s; reflexivity].
  - destruct s as [|c s]; simpl.
    + split; [discriminate | intros [b Hb]; discriminate].
    + destruct (Ascii.ascii_dec a c) as [->|Hne].
      * rewrite IH. split; intros [b Hb]; exists b; [subst; done | injection Hb; done].
      * split; [discriminate | intros [b Hb]; injection Hb; intros _ ?; congruence].
Qed.

(** X11: the filter [self.adv_param in name] is substring containment:
    [contains sub s] holds exactly when [s] splits as [a ++ sub ++ b]. *)
Theorem contains_spec sub s :
  contains sub s = true <-> exists a b, s = String.append a (String.append sub b).
Proof.
  induction s as [|c s IH]; cbn [contains].
  - rewrite String.eqb_eq. split.
    + intros ->. exists EmptyString, EmptyString. done.
    + intros [a [b Hab]]. destruct a; [|discriminate].
      destruct sub; [done | discriminate].
  - rewrite orb_true_iff, prefix_spec, IH. split.
    + intros [[b Hb] | [a [b Hab]]].
      * exists EmptyString, b. done.
      * exists (String c a), b. rewrite Hab. done.
    + intros [a [b Hab]]. destruct a as [|c' a].
      * left. exists b. done.
      * right. exists a, b. injection Hab. done.
Qed.

End ContainsFacts.

(** * Properties of the AWP controller *)

Module AWPFacts.
Import AWP.

Section Facts.

Variable adv_param : string.
Variable adv_lr adv_eps : Q.
Variable norm : list Q -> Q.
Variable isnan : Q -> bool.
Variable batch_t loss_t : Type.
Variable model_forward : named -> batch_t -> loss_t.
Variable zero_grad : named -> named.
Variable backward : loss_t -> named -> named.

Local Abbreviation matched := (AWP.matched adv_param).
Local Abbreviation save_one := (AWP.save_one adv_param adv_eps).
Local Abbreviation save := (AWP._save adv_param adv_eps).
Local Abbreviation attack_one := (AWP.attack_one adv_param adv_lr norm isnan).
Local Abbreviation attack_step := (AWP._attack_step adv_param adv_lr norm isnan).
Local Abbreviation attack_backward :=
  (AWP.attack_backward adv_param adv_lr adv_eps norm isnan batch_t loss_t
     model_forward zero_grad backward).
Local Abbreviation reachable :=
  (AWP.reachable adv_param adv_lr adv_eps norm isnan batch_t loss_t
     model_forward zero_grad backward).

(** The two maps hold the same names. *)
Definition keys_agree (st : awp) : Prop :=
  forall n, is_Some (backup st !! n) <-> is_Some (backup_eps st !! n).

(** The interval [_save] computes from a value. *)
Definition clamp_interval (b : list Q) : list Q * list Q :=
  let grad_eps := map (fun x => adv_eps * Qabs x) b in
  (zip_with Qminus b grad_eps, zip_with Qplus b grad_eps).

(** Everything of a parameter except its value. *)
Definition shape (ps : named) : list (string * option (list Q) * bool) :=
  map (fun np => (np.1, grad np.2, requires_grad np.2)) ps.

(** What one iteration of [_restore] does to a (name, value) pair. *)
Definition restore_w (st : awp) (nd : string * list Q) : string * list Q :=
  match backup st !! nd.1 with Some b => (nd.1, b) | None => nd end.

(** ** [_save] *)

Lemma save_cons st np ps : save st (np :: ps) = save (save_one st np) ps.
Proof. reflexivity. Qed.

(** An entry already present is left alone by one iteration. *)
Lemma save_one_keeps st np n v :
  backup st !! n = Some v ->
  backup (save_one st np) !! n = Some v /\
  backup_eps (save_one st np) !! n = backup_eps st !! n.
Proof.
  destruct np as [m p]; simpl; intros Hn.
  destruct (matched m p); [|auto].
  destruct (backup st !! m) eqn:Hm; [auto|]; simpl.
  destruct (decide (m = n)) as [->|Hne]; [congruence|].
  rewrite !lookup_insert_ne by done; auto.
Qed.

Lemma save_keeps ps : forall st n v,
  backup st !! n = Some v ->
  backup (save st ps) !! n = Some v /\
  backup_eps (save st ps) !! n = backup_eps st !! n.
Proof.
  induction ps as [|np ps IH]; intros st n v Hn; [auto|].
  rewrite save_cons.
  destruct (save_one_keeps st np n v Hn) as [H1 H2].
  destruct (IH _ _ _ H1) as [H3 H4]. rewrite H4, H2. auto.
Qed.

(** A name no entry of [ps] matches under is not touched. *)
Lemma save_one_other st m p n :
  (m <> n \/ matched m p = false) ->
  backup (save_one st (m, p)) !! n = backup st !! n /\
  backup_eps (save_one st (m, p)) !! n = backup_eps st !! n.
Proof.
  simpl; intros Hor.
  destruct (matched m p) eqn:Hmt; [|auto].
  destruct Hor as [Hne|]; [|congruence].
  destruct (backup st !! m); [auto|]; simpl.
  rewrite !lookup_insert_ne by done; auto.
Qed.

Lemma save_unmatched ps : forall st n,
  (forall p, In (n, p) ps -> matched n p = false) ->
  backup (save st ps) !! n = backup st !! n /\
  backup_eps (save st ps) !! n = backup_eps st !! n.
Proof.
  induction ps as [|[m p] ps IH]; intros st n Hun; [auto|].
  rewrite save_cons.
  assert (Hor : m <> n \/ matched m p = false).
  { destruct (decide (m = n)) as [->|]; [right; apply Hun; now left | now left]. }
  destruct (save_one_other st m p n Hor) as [H1 H2].
  destruct (IH (save_one st (m, p)) n) as [H3 H4].
  { intros q Hq; apply Hun; now right. }
  rewrite H3, H4, H1, H2; auto.
Qed.

(** A fresh, matched name is backed up with its current value and the
    interval computed from it. *)
Lemma save_fresh ps : forall st n p,
  NoDup (map fst ps) -> In (n, p) ps -> matched n p = true ->
  backup st !! n = None ->
  backup (save st ps) !! n = Some (data p) /\
  backup_eps (save st ps) !! n = Some (clamp_interval (data p)).
Proof.
  induction ps as [|[m q] ps IH]; intros st n p Hnd Hin Hmt Hfresh;
    [destruct Hin|].
  rewrite save_cons. simpl in Hnd. apply NoDup_cons in Hnd as [Hnotin Hnd].
  destruct Hin as [Heq|Hin].
  - injection Heq as -> ->.
    assert (Hs : backup (save_one st (n, p)) !! n = Some (data p) /\
  backup_eps (save_one st (n, p)) !! n = Some (clamp_interval (data p))).
    { simpl. rewrite Hmt, Hfresh. simpl. rewrite !lookup_insert_eq. auto. }
    destruct Hs as [H1 H2].
    destruct (save_keeps ps _ _ _ H1) as [H3 H4]. rewrite H4. auto.
  - assert (Hne : m <> n).
    { intros ->. apply Hnotin, list_elem_of_In, in_map_iff. exists (n, p). auto. }
    destruct (save_one_other st m q n (or_introl Hne)) as [H1 _].
    apply IH; auto. congruence.
Qed.


(** Every matched name ends up in [backup]. *)
Lemma save_matched_present ps : forall st n p,
  In (n, p) ps -> matched n p = true ->
  is_Some (backup (save st ps) !! n).
Proof.
  induction ps as [|[m q] ps IH]; intros st n p Hin Hmt; [destruct Hin|].
  rewrite save_cons. destruct Hin as [Heq|Hin]; [|eauto].
  injection Heq as -> ->.
  assert (Hs : is_Some (backup (save_one st (n, p)) !! n)).
  { simpl. rewrite Hmt. destruct (backup st !! n) eqn:Hb; [eauto|].
    simpl. rewrite lookup_insert_eq. eauto. }
  destruct Hs as [v Hv]. exists v. apply (save_keeps ps _ _ _ Hv).
Qed.

Lemma save_one_keys_agree st np : keys_agree st -> keys_agree (save_one st np).
Proof.
  destruct np as [m p]; simpl; intros Hk n.
  destruct (matched m p); [|apply Hk].
  destruct (backup st !! m); [apply Hk|]; simpl.
  destruct (decide (m = n)) as [->|Hne].
  - rewrite !lookup_insert_eq. split; eauto.
  - rewrite !lookup_insert_ne by done. apply Hk.
Qed.

Lemma save_keys_agree ps : forall st, keys_agree st -> keys_agree (save st ps).
Proof.
  induction ps as [|np ps IH]; intros st Hk; [done|].
  rewrite save_cons. apply IH, save_one_keys_agree, Hk.
Qed.

(** ** [_attack_step] *)

Lemma attack_one_name st np : (attack_one st np).1.1 = np.1.
Proof.
  destruct np as [n p]; unfold AWP.attack_one.
  destruct (grad p); [|done].
  destruct (matched n p); [|done].
  destruct (_ && _); [|done].
  destruct (backup_eps st !! n) as [[lo hi]|]; done.
Qed.

Lemma attack_one_unmatched st n p :
  matched n p = false -> attack_one st (n, p) = ((n, p), true).
Proof.
  intros H; unfold AWP.attack_one; rewrite H; destruct (grad p); done.
Qed.

Lemma attack_one_ok st n p :
  is_Some (backup_eps st !! n) -> (attack_one st (n, p)).2 = true.
Proof.
  intros [[lo hi] Hlh]; unfold AWP.attack_one.
  destruct (grad p); [|done].
  destruct (matched n p); [|done].
  destruct (_ && _); [|done].
  rewrite Hlh; done.
Qed.

Lemma attack_step_ok st ps :
  (forall np, In np ps -> (attack_one st np).2 = true) ->
  attack_step st ps = (map (fun np => (attack_one st np).1) ps, true).
Proof.
  induction ps as [|np ps IH]; intros Hok; [done|]; simpl.
  destruct (attack_one st np) as [np' ok] eqn:Ha.
  assert (ok = true) as -> by (rewrite <- (Hok np (or_introl eq_refl)), Ha; done).
  rewrite IH by (intros; apply Hok; now right). done.
Qed.

(** An entry the loop body leaves as it is stays in the result, also when a
    later or earlier entry raises. *)
Lemma attack_step_fixed st ps np :
  In np ps -> (attack_one st np).1 = np -> In np (attack_step st ps).1.
Proof.
  induction ps as [|nq ps IH]; intros Hin Hfix; [destruct Hin|]; simpl.
  destruct (attack_one st nq) as [nq' ok] eqn:Ha.
  destruct Hin as [<-|Hin].
  - rewrite Ha in Hfix; simpl in Hfix; subst.
    destruct ok; [destruct (attack_step st ps)|]; simpl; auto.
  - specialize (IH Hin Hfix).
    destruct ok; [destruct (attack_step st ps) eqn:Hs|]; simpl; right; [|exact Hin].
    exact IH.
Qed.

(** After [_save] from a state whose maps agree, no [KeyError] is raised. *)
Lemma attack_step_after_save st ps :
  keys_agree st ->
  attack_step (save st ps) ps =
    (map (fun np => (attack_one (save st ps) np).1) ps, true).
Proof.
  intros Hk. apply attack_step_ok. intros [n p] Hin.
  destruct (matched n p) eqn:Hmt.
  - apply attack_one_ok, (save_keys_agree ps st Hk), (save_matched_present ps st n p Hin Hmt).
  - rewrite attack_one_unmatched by done. done.
Qed.

(** ** The cycle *)

Lemma reachable_empty st : reachable st -> backup st = ∅ /\ backup_eps st = ∅.
Proof.
  induction 1 as [|st ps batch st' ps' tr Hr IH Hab]; [done|].
  unfold AWP.attack_backward in Hab.
  destruct (Qeq_bool adv_lr 0); [injection Hab as -> _ _; done|].
  destruct (attack_step (save st ps) ps) as [ps1 ok].
  destruct ok; [|discriminate].
  destruct (AWP._restore _ _) as [st4 ps4] eqn:Hr4.
  injection Hab as <- _ _. unfold AWP._restore in Hr4. injection Hr4 as <- _. done.
Qed.

Lemma empty_keys_agree st : backup st = ∅ -> backup_eps st = ∅ -> keys_agree st.
Proof. intros H1 H2 n. rewrite H1, H2, !lookup_empty. done. Qed.


(** ** [_restore] *)

Lemma restore_one_name st np : (AWP.restore_one st np).1 = np.1.
Proof. destruct np as [n q]; simpl; destruct (backup st !! n); done. Qed.

Lemma restore_one_backed st n q b :
  backup st !! n = Some b -> AWP.restore_one st (n, q) = (n, set_data q b).
Proof. simpl; intros ->; done. Qed.

Lemma restore_one_unbacked st n q :
  backup st !! n = None -> AWP.restore_one st (n, q) = (n, q).
Proof. simpl; intros ->; done. Qed.

(** ** Lists of named parameters *)

Lemma nodup_fst_unique (ps : named) n p q :
  NoDup (map fst ps) -> In (n, p) ps -> In (n, q) ps -> p = q.
Proof.
  induction ps as [|[m r] ps IH]; intros Hnd Hp Hq; [destruct Hp|].
  simpl in Hnd; apply NoDup_cons in Hnd as [Hnotin Hnd].
  assert (Hout : forall s, In (m, s) ps -> False).
  { intros s Hs. apply Hnotin, list_elem_of_In, in_map_iff. exists (m, s). auto. }
  destruct Hp as [Hp|Hp], Hq as [Hq|Hq].
  - congruence.
  - injection Hp as -> ->. destruct (Hout q Hq).
  - injection Hq as -> ->. destruct (Hout p Hp).
  - eauto.
Qed.

Lemma in_map_named (f : string * param -> string * param) (ps : named) n p' :
  (forall np, (f np).1 = np.1) ->
  In (n, p') (map f ps) -> exists q, In (n, q) ps /\ f (n, q) = (n, p').
Proof.
  intros Hf Hin. apply in_map_iff in Hin as [[m q] [Heq Hin]].
  assert (m = n) as -> by (pose proof (Hf (m, q)) as Hm; rewrite Heq in Hm; done).
  eauto.
Qed.

Lemma map_fst_named (f : string * param -> string * param) (ps : named) :
  (forall np, (f np).1 = np.1) -> map fst (map f ps) = map fst ps.
Proof. intros Hf. rewrite map_map. apply map_ext, Hf. Qed.

Lemma lookup_list_map {A B} (f : A -> B) (l : list A) i :
  map f l !! i = f <$> l !! i.
Proof. revert i; induction l as [|x l IH]; intros [|i]; simpl; auto. Qed.

(** Element-wise [torch.min(torch.max(x, lo), hi)] lands in [[lo, hi]]
    when the interval is not empty. *)
Lemma clamp_within l x h : l <= h -> l <= Qmin (Qmax x l) h /\ Qmin (Qmax x l) h <= h.
Proof.
  intros Hlh. split.
  - apply Q.min_glb; [apply Q.le_max_r | exact Hlh].
  - apply Q.le_min_r.
Qed.

Lemma grad_eps_nonneg x : 0 <= adv_eps -> 0 <= adv_eps * Qabs x.
Proof. intros H. apply Qmult_le_0_compat; [exact H | apply Qabs_nonneg]. Qed.

(** Element [i] of the interval computed from [b]. *)
Lemma clamp_interval_lookup b i l h :
  (clamp_interval b).1 !! i = Some l -> (clamp_interval b).2 !! i = Some h ->
  exists bi, b !! i = Some bi /\ l = bi - adv_eps * Qabs bi /\ h = bi + adv_eps * Qabs bi.
Proof.
  unfold clamp_interval; simpl. rewrite !lookup_zip_with, lookup_list_map.
  destruct (b !! i) as [bi|]; simpl; [|discriminate].
  intros Hl Hh. injection Hl as <-. injection Hh as <-. eauto.
Qed.


(** * The claims about the controller *)

(** C1: from any controller state reachable from [__init__], a call of
    [attack_backward] with non-zero [adv_lr] completes, and every parameter
    that [_save] matches (name contains [adv_param], [requires_grad], gradient
    present) holds afterwards exactly the value it held before the call: its
    name is still there and every entry under it has the old value. The
    framework's [zero_grad] and [backward] are only assumed to keep the
    parameter names; [_restore] overwrites the values whatever they did. *)
Theorem attack_backward_restores_matched
    (zero_grad_names : forall ps, map fst (zero_grad ps) = map fst ps)
    (backward_names : forall l ps, map fst (backward l ps) = map fst ps)
    st ps batch n p :
  reachable st -> NoDup (map fst ps) -> Qeq_bool adv_lr 0 = false ->
  In (n, p) ps -> matched n p = true ->
  match attack_backward st ps batch with
  | Returned _ ps' _ =>
      (exists p', In (n, p') ps') /\ (forall p', In (n, p') ps' -> data p' = data p)
  | Raised _ _ _ => False
  end.
Proof.
  intros Hr Hnd Hlr Hin Hmt.
  destruct (reachable_empty st Hr) as [Hb He].
  unfold AWP.attack_backward. rewrite Hlr.
  rewrite (attack_step_after_save st ps (empty_keys_agree st Hb He)).
  set (st1 := save st ps).
  set (ps1 := map (fun np => (attack_one st1 np).1) ps).
  set (ps3 := backward (model_forward ps1 batch) (zero_grad ps1)).
  assert (Hsaved : backup st1 !! n = Some (data p)).
  { apply (save_fresh ps st n p Hnd Hin Hmt). rewrite Hb. apply lookup_empty. }
  simpl. split.
  - assert (Hn3 : In n (map fst ps3)).
    { unfold ps3. rewrite backward_names, zero_grad_names. unfold ps1.
      rewrite map_fst_named by apply attack_one_name.
      apply in_map_iff. exists (n, p). auto. }
    apply in_map_iff in Hn3 as [[m q] [Hm Hq]]. simpl in Hm; subst m.
    exists (set_data q (data p)).
    rewrite <- (restore_one_backed st1 n q (data p) Hsaved).
    apply in_map, Hq.
  - intros p' Hp'.
    destruct (in_map_named _ _ _ _ (restore_one_name st1) Hp') as [q [_ Hq]].
    rewrite (restore_one_backed st1 n q (data p) Hsaved) in Hq.
    injection Hq as <-. done.
Qed.

(** C3: for a matched parameter whose gradient norm is neither zero nor NaN,
    [_attack_step] (run after [_save], as [attack_backward] does) adds
    [adv_lr * grad / (norm1 + 1e-6) * (norm2 + 1e-6)] with [norm1], [norm2]
    the norms of the gradient and of the value before the update, and clamps
    the sum element-wise into the interval [backup_eps] holds for the name. *)
Theorem attack_step_update st ps n p g lo hi :
  keys_agree st -> In (n, p) ps -> matched n p = true -> grad p = Some g ->
  Qeq_bool (norm g) 0 = false -> isnan (norm g) = false ->
  backup_eps (save st ps) !! n = Some (lo, hi) ->
  let r_at := map (fun gi => adv_lr * gi / (norm g + (1 # 1000000))
                                        * (norm (data p) + (1 # 1000000))) g in
  (attack_step (save st ps) ps).2 = true /\
  In (n, set_data p (zip_with Qmin (zip_with Qmax (zip_with Qplus (data p) r_at) lo) hi))
     (attack_step (save st ps) ps).1.
Proof.
  intros Hk Hin Hmt Hg Hz Hnan Hlh r_at.
  rewrite (attack_step_after_save st ps Hk). split; [done|].
  replace (n, _) with (attack_one (save st ps) (n, p)).1 by
    (unfold AWP.attack_one; rewrite Hg, Hmt, Hz, Hnan, Hlh; done).
  apply (in_map (fun np => (attack_one (save st ps) np).1)), Hin.
Qed.

(** C4: with [adv_lr] zero, [attack_backward] returns at once: controller
    state and parameters are returned as they were, and neither the forward
    pass, [zero_grad] nor [backward] is called. *)
Theorem attack_backward_zero_lr st ps batch :
  Qeq_bool adv_lr 0 = true -> attack_backward st ps batch = Returned st ps [].
Proof. intros H. unfold AWP.attack_backward. rewrite H. done. Qed.

(** C5: a second [_save] without [_restore] in between keeps every backup
    entry and every clamp interval the first one left. *)
Theorem save_twice_keeps st ps1 ps2 n :
  let st1 := AWP._save adv_param adv_eps st ps1 in
  is_Some (backup st1 !! n) ->
  backup (AWP._save adv_param adv_eps st1 ps2) !! n = backup st1 !! n /\
  backup_eps (AWP._save adv_param adv_eps st1 ps2) !! n = backup_eps st1 !! n.
Proof.
  intros st1 [v Hv]. destruct (save_keeps ps2 _ _ _ Hv) as [H1 H2].
  rewrite H1, H2, Hv. done.
Qed.

(** C7: a matched parameter whose gradient norm is zero (or NaN) is backed up
    by [_save] and left as it is by [_attack_step]. *)
Theorem zero_norm_saved_not_moved st ps n p g :
  In (n, p) ps -> matched n p = true -> grad p = Some g ->
  Qeq_bool (norm g) 0 = true \/ isnan (norm g) = true ->
  is_Some (backup (save st ps) !! n) /\ In (n, p) (attack_step (save st ps) ps).1.
Proof.
  intros Hin Hmt Hg Hzn. split; [apply (save_matched_present ps st n p Hin Hmt)|].
  apply attack_step_fixed; [exact Hin|].
  unfold AWP.attack_one. rewrite Hg, Hmt.
  destruct Hzn as [Hz|Hz]; rewrite Hz; simpl; [done|].
  rewrite andb_false_r. done.
Qed.


Lemma attack_step_cons st np ps :
  attack_step st (np :: ps) =
    let '(np', ok) := attack_one st np in
    if ok then let '(rest', ok') := attack_step st ps in (np' :: rest', ok')
    else (np' :: ps, false).
Proof. reflexivity. Qed.

(** Every entry of [_attack_step]'s output is an entry of its input, either
    as [attack_one] returned it or untouched (after a [KeyError]). *)
Lemma attack_step_in st ps np' :
  In np' (attack_step st ps).1 ->
  exists np, In np ps /\ ((attack_one st np).1 = np' \/ np = np').
Proof.
  induction ps as [|np ps IH]; [done|].
  rewrite attack_step_cons. destruct (attack_one st np) as [a ok] eqn:Ha.
  destruct ok.
  - destruct (attack_step st ps) as [rest ok'] eqn:Hs. simpl.
    intros [<-|H].
    + exists np. split; [now left|]. left. rewrite Ha. done.
    + destruct (IH H) as [np0 [Hin Hor]]. exists np0. split; [now right | exact Hor].
  - simpl. intros [<-|H].
    + exists np. split; [now left|]. left. rewrite Ha. done.
    + exists np'. split; [now right | now right].
Qed.

(** C2 (as amended): when [adv_eps] is non-negative, after [_save] and
    [_attack_step], every element of every matched parameter whose interval
    this [_save] computed (the name had no backup before) lies in that
    interval.  Tensors are exact rationals here: the statement covers
    computations in which no inf or NaN occurs. *)
Theorem attack_step_within_interval st ps n p p' lo hi :
  0 <= adv_eps -> backup st !! n = None -> NoDup (map fst ps) ->
  In (n, p) ps -> matched n p = true ->
  In (n, p') (attack_step (save st ps) ps).1 ->
  backup_eps (save st ps) !! n = Some (lo, hi) ->
  forall i l x h, lo !! i = Some l -> data p' !! i = Some x -> hi !! i = Some h ->
  l <= x <= h.
Proof.
  intros Heps Hfresh Hnd Hin Hmt Hin' Hlh i l x h Hl Hx Hh.
  destruct (save_fresh ps st n p Hnd Hin Hmt Hfresh) as [_ Hint].
  assert (Hci : clamp_interval (data p) = (lo, hi)) by congruence.
  destruct (clamp_interval_lookup (data p) i l h) as [bi [Hbi [-> ->]]];
    [rewrite Hci; exact Hl | rewrite Hci; exact Hh|].
  pose proof (grad_eps_nonneg bi Heps) as Ht.
  destruct (attack_step_in _ _ _ Hin') as [[m q] [Hq [Hfq|Hfq]]].
  2:{ injection Hfq as -> ->.
      assert (p' = p) as -> by exact (nodup_fst_unique ps n p' p Hnd Hq Hin).
      rewrite Hbi in Hx. injection Hx as <-. lra. }
  assert (m = n) as ->
    by (pose proof (attack_one_name (save st ps) (m, q)) as Hn; rewrite Hfq in Hn; done).
  assert (q = p) as -> by exact (nodup_fst_unique ps n q p Hnd Hq Hin).
  revert Hfq. unfold AWP.attack_one.
  destruct (grad p) as [g|] eqn:Hg;
    [|unfold AWP.matched in Hmt; rewrite Hg, andb_false_r in Hmt; discriminate].
  rewrite Hmt.
  destruct (_ && _).
  - rewrite Hlh. intros Hfq. injection Hfq as <-.
    simpl in Hx. rewrite !lookup_zip_with, Hl, Hh, lookup_list_map in Hx.
    destruct (data p !! i) as [di|]; simpl in Hx; [|discriminate].
    destruct (g !! i) as [gi|]; simpl in Hx; [|discriminate].
    injection Hx as <-. apply clamp_within. lra.
  - intros Hfq. injection Hfq as <-. rewrite Hbi in Hx. injection Hx as <-. lra.
Qed.


(** C6: [backup] and [backup_eps] are empty after [__init__], after every
    [_restore], and in every state reachable through completed
    [attack_backward] calls; [_save] from such a state makes both non-empty as
    soon as one parameter matches; and the two maps always hold the same names
    ([_save] keeps them agreeing, [_attack_step] does not touch them). *)
Theorem backup_lifecycle :
  (backup awp_init = ∅ /\ backup_eps awp_init = ∅) /\
  (forall st ps, (AWP._restore st ps).1 = awp_init) /\
  (forall st, reachable st -> backup st = ∅ /\ backup_eps st = ∅) /\
  (forall st ps n p, reachable st -> In (n, p) ps -> matched n p = true ->
     backup (save st ps) <> ∅ /\ backup_eps (save st ps) <> ∅) /\
  keys_agree awp_init /\
  (forall st ps, keys_agree st -> keys_agree (save st ps)) /\
  (forall st ps, keys_agree (AWP._restore st ps).1).
Proof.
  split; [done|]. split; [done|]. split; [apply reachable_empty|].
  split.
  - intros st ps n p Hr Hin Hmt.
    destruct (reachable_empty st Hr) as [Hb He].
    pose proof (save_matched_present ps st n p Hin Hmt) as Hs.
    pose proof (save_keys_agree ps st (empty_keys_agree st Hb He) n) as Hk.
    assert (Hs' : is_Some (backup_eps (save st ps) !! n)) by (apply Hk, Hs).
    split; [destruct Hs as [v Hv] | destruct Hs' as [v Hv]]; intros Hemp;
      rewrite Hemp, lookup_empty in Hv; discriminate.
  - split; [apply empty_keys_agree; done|].
    split; [intros st ps; apply save_keys_agree|].
    intros st ps. apply empty_keys_agree; done.
Qed.

(** C10: a parameter [_save] does not match is not entered into [backup], is
    returned as it is by [_attack_step] run after that [_save], and is left
    as it is by [_restore]. [_save] itself writes no parameter. *)
Theorem unmatched_never_written st ps n p :
  reachable st -> NoDup (map fst ps) -> In (n, p) ps -> matched n p = false ->
  backup (save st ps) !! n = None /\
  In (n, p) (attack_step (save st ps) ps).1 /\
  (forall (ps' : named) q, In (n, q) ps' -> In (n, q) (AWP._restore (save st ps) ps').2).
Proof.
  intros Hr Hnd Hin Hmt.
  destruct (reachable_empty st Hr) as [Hb He].
  assert (Hnone : backup (save st ps) !! n = None).
  { destruct (save_unmatched ps st n) as [H1 _].
    - intros q Hq. rewrite <- (nodup_fst_unique ps n p q Hnd Hin Hq). exact Hmt.
    - rewrite H1, Hb. apply lookup_empty. }
  split; [exact Hnone|]. split.
  - apply attack_step_fixed; [exact Hin|]. rewrite attack_one_unmatched; done.
  - intros ps' q Hq. simpl.
    rewrite <- (restore_one_unbacked (save st ps) n q Hnone). apply in_map, Hq.
Qed.


(** * Further properties of the controller *)

Lemma set_data_data p : set_data p (data p) = p.
Proof. destruct p; reflexivity. Qed.

Lemma set_data_set_data p d d' : set_data (set_data p d) d' = set_data p d'.
Proof. reflexivity. Qed.

(** The loop body of [_attack_step] only ever replaces [param.data]. *)
Lemma attack_one_shape st n p : exists d, (attack_one st (n, p)).1 = (n, set_data p d).
Proof.
  unfold AWP.attack_one.
  destruct (grad p); [|exists (data p); rewrite set_data_data; done].
  destruct (matched n p); [|exists (data p); rewrite set_data_data; done].
  destruct (_ && _); [|exists (data p); rewrite set_data_data; done].
  destruct (backup_eps st !! n) as [[lo hi]|]; eexists; reflexivity.
Qed.

(** A [_save] that finds every matched name already backed up changes nothing. *)
Lemma save_all_present ps : forall st,
  (forall n p, In (n, p) ps -> matched n p = true -> is_Some (backup st !! n)) ->
  save st ps = st.
Proof.
  induction ps as [|[m q] ps IH]; intros st Hp; [done|].
  rewrite save_cons.
  assert (Hone : save_one st (m, q) = st).
  { simpl. destruct (matched m q) eqn:Hmt; [|done].
    destruct (Hp m q (or_introl eq_refl) Hmt) as [v ->]. done. }
  rewrite Hone. apply IH. intros n p Hin. apply Hp. now right.
Qed.

(** Where a [backup] entry after [_save] comes from. *)
Lemma save_origin ps : forall st n v,
  backup (save st ps) !! n = Some v ->
  backup st !! n = Some v \/ exists p, In (n, p) ps /\ matched n p = true.
Proof.
  induction ps as [|[m q] ps IH]; intros st n v Hv; [now left|].
  rewrite save_cons in Hv.
  destruct (IH _ _ _ Hv) as [Hs|[p [Hin Hmt]]]; [|right; exists p; split; [now right|done]].
  destruct (decide (m = n)) as [->|Hne].
  - destruct (matched n q) eqn:Hmt; [right; exists q; split; [now left|done]|].
    left. destruct (save_one_other st n q n (or_intror Hmt)) as [H1 _]. congruence.
  - left. destruct (save_one_other st m q n (or_introl Hne)) as [H1 _]. congruence.
Qed.

(** X1: [_save] is idempotent: saving the same parameters again is a no-op. *)
Theorem save_idempotent st ps :
  AWP._save adv_param adv_eps (AWP._save adv_param adv_eps st ps) ps =
  AWP._save adv_param adv_eps st ps.
Proof.
  apply save_all_present. intros n p Hin Hmt.
  apply (save_matched_present ps st n p Hin Hmt).
Qed.

(** X2: from a reachable state, [_save] backs up exactly the matched
    parameters, each with its current value and the interval computed from
    that value. *)
Theorem save_backs_up_exactly_matched st ps :
  reachable st -> NoDup (map fst ps) ->
  (forall n v, backup (AWP._save adv_param adv_eps st ps) !! n = Some v <->
               exists p, In (n, p) ps /\ matched n p = true /\ v = data p) /\
  (forall n p, In (n, p) ps -> matched n p = true ->
     backup_eps (AWP._save adv_param adv_eps st ps) !! n = Some (clamp_interval (data p))).
Proof.
  intros Hr Hnd. destruct (reachable_empty st Hr) as [Hb _].
  assert (Hfresh : forall n, backup st !! n = None) by (intros n; rewrite Hb; apply lookup_empty).
  split.
  - intros n v. split.
    + intros Hv. destruct (save_origin ps st n v Hv) as [Hs|[p [Hin Hmt]]];
        [rewrite Hfresh in Hs; discriminate|].
      exists p. split; [done|]. split; [done|].
      destruct (save_fresh ps st n p Hnd Hin Hmt (Hfresh n)) as [H1 _]. congruence.
    + intros [p [Hin [Hmt ->]]]. apply (save_fresh ps st n p Hnd Hin Hmt (Hfresh n)).
  - intros n p Hin Hmt. apply (save_fresh ps st n p Hnd Hin Hmt (Hfresh n)).
Qed.

(** X3: [_restore] right after [_save] (from a reachable state) gives back
    the parameters exactly as they were. *)
Theorem restore_after_save st ps :
  reachable st -> NoDup (map fst ps) ->
  (AWP._restore (AWP._save adv_param adv_eps st ps) ps).2 = ps.
Proof.
  intros Hr Hnd. destruct (reachable_empty st Hr) as [Hb _].
  simpl. etransitivity; [|apply map_id]. apply map_ext_in. intros [n p] Hin.
  destruct (matched n p) eqn:Hmt.
  - rewrite (restore_one_backed _ n p (data p)), set_data_data; [done|].
    apply (save_fresh ps st n p Hnd Hin Hmt). rewrite Hb. apply lookup_empty.
  - apply restore_one_unbacked.
    destruct (save_unmatched ps st n) as [H1 _].
    + intros q Hq. rewrite <- (nodup_fst_unique ps n p q Hnd Hin Hq). exact Hmt.
    + rewrite H1, Hb. apply lookup_empty.
Qed.

(** X4: [_restore] undoes [_attack_step] completely: from a reachable state,
    save, attack and restore give back the very same parameters (values,
    gradients and flags). *)
Theorem restore_undoes_attack st ps :
  reachable st -> NoDup (map fst ps) ->
  (AWP._restore (AWP._save adv_param adv_eps st ps)
     (AWP._attack_step adv_param adv_lr norm isnan
        (AWP._save adv_param adv_eps st ps) ps).1).2 = ps.
Proof.
  intros Hr Hnd. destruct (reachable_empty st Hr) as [Hb He].
  rewrite (attack_step_after_save st ps (empty_keys_agree st Hb He)).
  simpl. rewrite map_map. etransitivity; [|apply map_id]. apply map_ext_in.
  intros [n p] Hin.
  destruct (matched n p) eqn:Hmt.
  - destruct (attack_one_shape (save st ps) n p) as [d ->].
    rewrite (restore_one_backed _ n _ (data p)), set_data_set_data, set_data_data; [done|].
    apply (save_fresh ps st n p Hnd Hin Hmt). rewrite Hb. apply lookup_empty.
  - rewrite attack_one_unmatched by done. simpl. apply restore_one_unbacked.
    destruct (save_unmatched ps st n) as [H1 _].
    + intros q Hq. rewrite <- (nodup_fst_unique ps n p q Hnd Hin Hq). exact Hmt.
    + rewrite H1, Hb. apply lookup_empty.
Qed.

(** X5: [_attack_step] writes nothing but values: names, order, gradients and
    [requires_grad] flags come out as they went in, also when it raises. *)
Theorem attack_step_only_values st ps :
  shape (AWP._attack_step adv_param adv_lr norm isnan st ps).1 = shape ps.
Proof.
  induction ps as [|[n p] ps IH]; [done|].
  rewrite attack_step_cons.
  destruct (attack_one_shape st n p) as [d Hd].
  destruct (attack_one st (n, p)) as [np' ok]. simpl in Hd. subst np'.
  destruct ok; [destruct (attack_step st ps) as [rest ok'] eqn:Hs|].
  - unfold shape in IH |- *. simpl in IH |- *. rewrite IH. done.
  - done.
Qed.


(** X6: when a parameter reaches the clamp of [_attack_step] without an
    interval in [backup_eps] (no [_save] for it), [_attack_step] raises
    [KeyError]: the parameters before it have been processed, it has already
    received the unclamped update in place, and the parameters after it are
    untouched. *)
Theorem attack_step_missing_interval st pre n p g post :
  (forall np, In np pre -> (attack_one st np).2 = true) ->
  matched n p = true -> grad p = Some g ->
  Qeq_bool (norm g) 0 = false -> isnan (norm g) = false ->
  backup_eps st !! n = None ->
  AWP._attack_step adv_param adv_lr norm isnan st (pre ++ (n, p) :: post) =
    (map (fun np => (attack_one st np).1) pre ++
       (n, set_data p (zip_with Qplus (data p)
             (map (fun gi => adv_lr * gi / (norm g + e) * (norm (data p) + e)) g)))
       :: post, false).
Proof.
  intros Hpre Hmt Hg Hz Hnan Hnone.
  induction pre as [|nq pre IH].
  - simpl. unfold AWP.attack_one. rewrite Hg, Hmt, Hz, Hnan, Hnone. done.
  - simpl app. rewrite attack_step_cons.
    destruct (attack_one st nq) as [nq' ok] eqn:Ha.
    assert (ok = true) as ->
      by (pose proof (Hpre nq (or_introl eq_refl)) as H; rewrite Ha in H; exact H).
    rewrite IH by (intros; apply Hpre; now right).
    replace (map (fun np => (attack_one st np).1) (nq :: pre))
      with ((attack_one st nq).1 :: map (fun np => (attack_one st np).1) pre) by reflexivity.
    reflexivity.
Qed.

Lemma Qeq_list_refl (l : list Q) : Forall2 Qeq l l.
Proof. induction l; constructor; [reflexivity | assumption]. Qed.

(** With a zero tolerance the clamp pins every element to its backup. *)
Lemma clamp_zero_eps (b g' : list Q) :
  adv_eps == 0 -> length g' = length b ->
  Forall2 Qeq
    (zip_with Qmin (zip_with Qmax (zip_with Qplus b g') (clamp_interval b).1)
       (clamp_interval b).2) b.
Proof.
  intros Heps. unfold clamp_interval; simpl.
  revert g'. induction b as [|bi b IH]; intros [|gi g'] Hlen; simpl in *;
    try discriminate; constructor; [|apply IH; lia].
  assert (Ht : adv_eps * Qabs bi == 0) by (rewrite Heps; apply Qmult_0_l).
  pose proof (Q.le_max_r (bi + gi) (bi - adv_eps * Qabs bi)) as Hm.
  rewrite Q.min_r; lra.
Qed.

(** X7: with [adv_eps] zero, a [_save] (from a reachable state) followed by
    [_attack_step] leaves every parameter value numerically as it was, when
    gradients have the shape of their parameters: the interval is a single
    point.  Tensors are exact rationals here: the statement covers
    computations in which no inf or NaN occurs. *)
Theorem attack_step_zero_eps_noop st ps :
  reachable st -> NoDup (map fst ps) -> adv_eps == 0 ->
  (forall n p g, In (n, p) ps -> grad p = Some g -> length g = length (data p)) ->
  Forall2 (fun np np' => np'.1 = np.1 /\ Forall2 Qeq (data np'.2) (data np.2))
    ps (AWP._attack_step adv_param adv_lr norm isnan (AWP._save adv_param adv_eps st ps) ps).1.
Proof.
  intros Hr Hnd Heps Hlen. destruct (reachable_empty st Hr) as [Hb He].
  rewrite (attack_step_after_save st ps (empty_keys_agree st Hb He)). simpl.
  apply Forall2_fmap_r, Forall_Forall2_diag, Forall_forall. intros [n p] Hin.
  apply list_elem_of_In in Hin.
  unfold AWP.attack_one, compose. cbv beta iota.
  destruct (grad p) as [g|] eqn:Hg; [|split; [done | apply Qeq_list_refl]].
  destruct (matched n p) eqn:Hmt; [|split; [done | apply Qeq_list_refl]].
  destruct (_ && _); [|split; [done | apply Qeq_list_refl]].
  destruct (save_fresh ps st n p Hnd Hin Hmt) as [_ Hint];
    [rewrite Hb; apply lookup_empty|].
  rewrite Hint. simpl. split; [done|].
  apply clamp_zero_eps; [exact Heps|].
  rewrite length_map. exact (Hlen n p g Hin Hg).
Qed.

(** X8: from a reachable state, [_attack_step] after [_save] never raises
    [KeyError]: every matched name has its interval.  So, with non-zero
    [adv_lr], when the forward pass, [zero_grad] and [backward] return (the
    errors they raise are outside this model), [attack_backward] calls each
    once, in this order, and ends with both maps empty. *)
Theorem save_attack_no_key_error st ps batch :
  reachable st -> Qeq_bool adv_lr 0 = false ->
  (AWP._attack_step adv_param adv_lr norm isnan (AWP._save adv_param adv_eps st ps) ps).2
    = true /\
  exists ps', AWP.attack_backward adv_param adv_lr adv_eps norm isnan batch_t loss_t
                model_forward zero_grad backward st ps batch
              = Returned awp_init ps' [Forward; ZeroGrad; Backward].
Proof.
  intros Hr Hlr. destruct (reachable_empty st Hr) as [Hb He].
  split; [rewrite (attack_step_after_save st ps (empty_keys_agree st Hb He)); done|].
  unfold AWP.attack_backward. rewrite Hlr.
  rewrite (attack_step_after_save st ps (empty_keys_agree st Hb He)).
  simpl. eexists. reflexivity.
Qed.

Lemma weights_restore st l :
  weights (map (AWP.restore_one st) l) = map (restore_w st) (weights l).
Proof.
  unfold weights. rewrite !map_map. apply map_ext. intros [n p].
  unfold AWP.restore_one, restore_w; simpl. destruct (backup st !! n); done.
Qed.

Lemma shape_restore st l : shape (map (AWP.restore_one st) l) = shape l.
Proof.
  unfold shape. rewrite map_map. apply map_ext. intros [n p].
  unfold AWP.restore_one; simpl. destruct (backup st !! n); done.
Qed.

(** X9: a full cycle of [attack_backward] from a reachable state gives every
    parameter its value back, as long as [zero_grad] and [backward] only
    write gradients. *)
Theorem attack_backward_weights_restored st ps batch :
  reachable st -> NoDup (map fst ps) -> Qeq_bool adv_lr 0 = false ->
  (forall l, weights (zero_grad l) = weights l) ->
  (forall loss l, weights (backward loss l) = weights l) ->
  exists ps', AWP.attack_backward adv_param adv_lr adv_eps norm isnan batch_t loss_t
                model_forward zero_grad backward st ps batch
              = Returned awp_init ps' [Forward; ZeroGrad; Backward] /\
              weights ps' = weights ps.
Proof.
  intros Hr Hnd Hlr Hz Hbw. destruct (reachable_empty st Hr) as [Hb He].
  unfold AWP.attack_backward. rewrite Hlr.
  rewrite (attack_step_after_save st ps (empty_keys_agree st Hb He)).
  eexists; split; [reflexivity|].
  rewrite weights_restore, Hbw, Hz. unfold weights. rewrite !map_map.
  apply map_ext_in. intros [n p] Hin.
  destruct (matched n p) eqn:Hmt.
  - destruct (attack_one_shape (save st ps) n p) as [d ->].
    unfold restore_w; simpl.
    rewrite (proj1 (save_fresh ps st n p Hnd Hin Hmt ltac:(rewrite Hb; apply lookup_empty))).
    done.
  - rewrite attack_one_unmatched by done. unfold restore_w; simpl.
    destruct (save_unmatched ps st n) as [H1 _].
    + intros q Hq. rewrite <- (nodup_fst_unique ps n p q Hnd Hin Hq). exact Hmt.
    + rewrite H1, Hb, lookup_empty. done.
Qed.

(** X10: when [attack_backward] runs a cycle, the gradients and flags it
    leaves are the ones [zero_grad] and [backward] produced from the loss at
    the perturbed weights: [_restore] writes values only. *)
Theorem attack_backward_keeps_adv_grads st ps batch st' ps' tr :
  Qeq_bool adv_lr 0 = false ->
  AWP.attack_backward adv_param adv_lr adv_eps norm isnan batch_t loss_t
    model_forward zero_grad backward st ps batch = Returned st' ps' tr ->
  let ps1 := (AWP._attack_step adv_param adv_lr norm isnan
                (AWP._save adv_param adv_eps st ps) ps).1 in
  shape ps' = shape (backward (model_forward ps1 batch) (zero_grad ps1)) /\
  tr = [Forward; ZeroGrad; Backward].
Proof.
  intros Hlr Hab ps1. unfold AWP.attack_backward in Hab. rewrite Hlr in Hab.
  subst ps1. destruct (attack_step (save st ps) ps) as [q ok]. simpl.
  destruct ok; [|discriminate].
  injection Hab as _ <- <-. split; [apply shape_restore | done].
Qed.

End Facts.
End AWPFacts.

(** * Properties of the [Matcha] wrapper *)

Module MatchaFacts.
Import Matcha.

(** [int(0.4 * n)] on every layer count up to 1000, checked by evaluation. *)
Definition freeze_count_table_ok : bool :=
  forallb (fun n => match to_freeze_layer n with
                    | Some k => Z.eqb k (Z.of_nat (2 * n / 5))
                    | None => false
                    end) (seq 0 1001).

Lemma freeze_count_table : freeze_count_table_ok = true.
Proof. vm_compute. reflexivity. Qed.

Lemma to_freeze_layer_small (n : nat) :
  (n <= 1000)%nat -> to_freeze_layer n = Some (Z.of_nat (2 * n / 5)).
Proof.
  intros Hn. pose proof freeze_count_table as H.
  unfold freeze_count_table_ok in H. rewrite forallb_forall in H.
  specialize (H n). rewrite in_seq in H.
  destruct (to_freeze_layer n) as [k|]; [|discriminate H; lia].
  apply Z.eqb_eq in H; [subst; done | lia].
Qed.

Lemma freeze_params_frozen (l : named) np :
  In np (freeze_params l) -> requires_grad np.2 = false.
Proof.
  unfold freeze_params. intros Hin. apply in_map_iff in Hin as [np' [<- _]]. done.
Qed.

Lemma freeze_params_weights (l : named) : weights (freeze_params l) = weights l.
Proof. unfold weights, freeze_params. rewrite map_map. done. Qed.

Lemma lookup_frozen_prefix (L : list named) k i :
  (map freeze_params (firstn k L) ++ skipn k L) !! i =
    (if (i <? k)%nat then freeze_params <$> L !! i else L !! i).
Proof.
  revert k i. induction L as [|l L IH]; intros [|k] [|i]; simpl; auto.
  all: try (destruct (_ <? _)%nat; reflexivity).
  exact (IH k i).
Qed.

(** C8: [__init__] freezes exactly the encoder layers with index below
    [int(0.4 * num_hidden_layers)] and every embedding parameter (names and
    values kept, [requires_grad] false), and leaves every other layer and
    every other parameter (the decoder among them) as it was. The count is
    [floor(2n/5)] for every layer count up to 1000, and 4 for 10 layers. *)
Theorem freeze_policy :
  to_freeze_layer 10 = Some 4%Z /\
  (forall n : nat, (n <= 1000)%nat -> to_freeze_layer n = Some (Z.of_nat (2 * n / 5))) /\
  (forall (n : nat) (k : Z) (bb : backbone), to_freeze_layer n = Some k ->
     exists bb', freeze_encoder n bb = Some bb' /\
       length (encoder_layer bb') = length (encoder_layer bb) /\
       (forall i layer, encoder_layer bb !! i = Some layer ->
          exists layer', encoder_layer bb' !! i = Some layer' /\
            if (i <? Z.to_nat k)%nat
            then weights layer' = weights layer /\
                 (forall np, In np layer' -> requires_grad np.2 = false)
            else layer' = layer) /\
       weights (embeddings bb') = weights (embeddings bb) /\
       (forall np, In np (embeddings bb') -> requires_grad np.2 = false) /\
       other_params bb' = other_params bb).
Proof.
  split; [vm_compute; reflexivity|].
  split; [exact to_freeze_layer_small|].
  intros n k bb Hk. unfold freeze_encoder. rewrite Hk.
  eexists; split; [reflexivity|]; simpl.
  split; [rewrite length_app, length_map, <- length_app, take_drop; done|].
  split.
  - intros i layer Hl. rewrite lookup_frozen_prefix, Hl.
    destruct (i <? Z.to_nat k)%nat; simpl; eexists; (split; [reflexivity|]); [|done].
    split; [apply freeze_params_weights | apply freeze_params_frozen].
  - split; [apply freeze_params_weights|]. split; [apply freeze_params_frozen | done].
Qed.

(** C9: [forward] returns the backbone's [loss] as total loss, and a
    dictionary whose [loss_main] and [loss_cls] entries are both that loss. *)
Theorem forward_returns_backbone_loss {P M Lb O L : Type}
    (backbone_forward : P -> M -> Lb -> O) (outputs_loss : O -> L)
    (flattened_patches : P) (attention_mask : M) (labels : Lb) :
  let '(loss, loss_dict) :=
    forward P M Lb O L backbone_forward outputs_loss flattened_patches attention_mask labels in
  loss = outputs_loss (backbone_forward flattened_patches attention_mask labels) /\
  loss_dict !! "loss_main" = Some loss /\ loss_dict !! "loss_cls" = Some loss.
Proof.
  unfold forward; simpl. split; [done|]. split; [apply lookup_insert_eq|].
  rewrite lookup_insert_ne by done. apply lookup_insert_eq.
Qed.

(** X12: for every layer count from 1 to 1000 the last encoder layer stays
    trainable, and with at most two layers no encoder layer is frozen
    ([int(0.4 * n)] is 0 there). *)
Theorem freeze_keeps_last_layer n bb :
  (1 <= n <= 1000)%nat -> length (encoder_layer bb) = n ->
  exists bb', freeze_encoder n bb = Some bb' /\
    encoder_layer bb' !! (n - 1)%nat = encoder_layer bb !! (n - 1)%nat /\
    ((n <= 2)%nat -> encoder_layer bb' = encoder_layer bb).
Proof.
  intros Hn Hlen. unfold freeze_encoder. rewrite (to_freeze_layer_small n) by lia.
  eexists; split; [reflexivity|]; cbn [encoder_layer]. rewrite Nat2Z.id.
  split.
  - rewrite lookup_frozen_prefix.
    replace ((n - 1) <? 2 * n / 5)%nat with false; [done|].
    symmetry. apply Nat.ltb_ge.
    pose proof (Nat.div_mod_eq (2 * n) 5).
    pose proof (Nat.mod_upper_bound (2 * n) 5 ltac:(lia)). lia.
  - intros Hn2. rewrite Nat.div_small by lia. done.
Qed.

(** X13: what [__init__] freezes is out of reach of [AWP]: a parameter of
    the embeddings or of a frozen encoder layer fails the filter, so
    [_attack_step] leaves it as it is and [_save] backs nothing up for it. *)
Theorem frozen_never_attacked adv_param adv_lr adv_eps norm isnan n k bb bb' st np :
  to_freeze_layer n = Some k -> freeze_encoder n bb = Some bb' ->
  (In np (embeddings bb') \/
   exists i layer, (i < Z.to_nat k)%nat /\ encoder_layer bb' !! i = Some layer /\ In np layer) ->
  AWP.attack_one adv_param adv_lr norm isnan st np = (np, true) /\
  AWP.save_one adv_param adv_eps st np = st.
Proof.
  intros Hk Hf Hnp.
  assert (Hr : requires_grad np.2 = false).
  { unfold freeze_encoder in Hf. rewrite Hk in Hf. injection Hf as <-. simpl in Hnp.
    destruct Hnp as [Hin | [i [layer [Hi [Hl Hin]]]]];
      [exact (freeze_params_frozen _ _ Hin)|].
    rewrite lookup_frozen_prefix in Hl. apply Nat.ltb_lt in Hi. rewrite Hi in Hl.
    destruct (encoder_layer bb !! i); simpl in Hl; [|discriminate].
    injection Hl as <-. exact (freeze_params_frozen _ _ Hin). }
  destruct np as [name p]. simpl in Hr.
  unfold AWP.attack_one, AWP.save_one, AWP.matched. rewrite Hr. simpl.
  destruct (grad p); done.
Qed.

End MatchaFacts.

(** * Witnesses and counterexamples on the sample model *)

Module Witnesses.
Import Sample.

Abbreviation p_weight := (mkParam [1; 2] (Some [3; 4]) true).

Lemma attack_backward_restores_matched_witness :
  match AWP.attack_backward "weight" 1 (1 # 10000) frob_norm no_nan unit Q
          sample_forward sample_zero_grad sample_backward AWP.awp_init sample_params tt with
  | AWP.Returned _ ps' _ =>
      (exists p', In ("encoder.weight", p') ps') /\
      (forall p', In ("encoder.weight", p') ps' -> data p' = data p_weight)
  | AWP.Raised _ _ _ => False
  end.
Proof.
  apply (AWPFacts.attack_backward_restores_matched "weight" 1 (1 # 10000) frob_norm no_nan
           unit Q sample_forward sample_zero_grad sample_backward).
  - intros ps. unfold sample_zero_grad. rewrite map_map. reflexivity.
  - intros l ps. unfold sample_backward. rewrite map_map. reflexivity.
  - apply AWP.reachable_init.
  - apply (bool_decide_unpack _). vm_compute. reflexivity.
  - vm_compute. reflexivity.
  - simpl. left. reflexivity.
  - vm_compute. reflexivity.
Defined.

Lemma attack_step_within_interval_witness : 1.9998 <= 2.0002 <= 2.0002.
Proof.
  refine (AWPFacts.attack_step_within_interval "weight" 1 (1 # 10000) frob_norm no_nan
            AWP.awp_init sample_params "encoder.weight" p_weight
            (mkParam [1.0001; 2.0002] (Some [3; 4]) true)
            [0.9999; 1.9998] [1.0001; 2.0002] _ _ _ _ _ _ _
            1%nat 1.9998 2.0002 2.0002 _ _ _).
  - vm_compute. discriminate.
  - vm_compute. reflexivity.
  - apply (bool_decide_unpack _). vm_compute. reflexivity.
  - simpl. left. reflexivity.
  - vm_compute. reflexivity.
  - vm_compute. left. reflexivity.
  - vm_compute. reflexivity.
  - vm_compute. reflexivity.
  - vm_compute. reflexivity.
  - vm_compute. reflexivity.
Defined.

Lemma attack_step_update_witness :
  let r_at := map (fun gi => 1 * gi / (frob_norm [3; 4] + (1 # 1000000))
                                  * (frob_norm (data p_weight) + (1 # 1000000))) [3; 4] in
  (AWP._attack_step "weight" 1 frob_norm no_nan
     (AWP._save "weight" (1 # 10000) AWP.awp_init sample_params) sample_params).2 = true /\
  In ("encoder.weight",
      set_data p_weight (zip_with Qmin (zip_with Qmax (zip_with Qplus (data p_weight) r_at)
                                                      [0.9999; 1.9998]) [1.0001; 2.0002]))
     (AWP._attack_step "weight" 1 frob_norm no_nan
        (AWP._save "weight" (1 # 10000) AWP.awp_init sample_params) sample_params).1.
Proof.
  refine (AWPFacts.attack_step_update "weight" 1 (1 # 10000) frob_norm no_nan
            AWP.awp_init sample_params "encoder.weight" p_weight [3; 4]
            [0.9999; 1.9998] [1.0001; 2.0002] _ _ _ _ _ _ _).
  - apply AWPFacts.empty_keys_agree; reflexivity.
  - simpl. left. reflexivity.
  - vm_compute. reflexivity.
  - reflexivity.
  - vm_compute. reflexivity.
  - reflexivity.
  - vm_compute. reflexivity.
Defined.

Lemma attack_backward_zero_lr_witness :
  AWP.attack_backward "weight" 0 (1 # 10000) frob_norm no_nan unit Q
    sample_forward sample_zero_grad sample_backward AWP.awp_init sample_params tt
  = AWP.Returned AWP.awp_init sample_params [].
Proof.
  apply (AWPFacts.attack_backward_zero_lr "weight" 0 (1 # 10000) frob_norm no_nan unit Q
           sample_forward sample_zero_grad sample_backward).
  vm_compute. reflexivity.
Defined.

Lemma save_twice_keeps_witness :
  AWP.backup (AWP._save "weight" (1 # 10000)
                (AWP._save "weight" (1 # 10000) AWP.awp_init sample_params)
                [("encoder.weight", mkParam [9; 9] (Some [1; 1]) true)]) !! "encoder.weight"
  = AWP.backup (AWP._save "weight" (1 # 10000) AWP.awp_init sample_params) !! "encoder.weight" /\
  AWP.backup_eps (AWP._save "weight" (1 # 10000)
                    (AWP._save "weight" (1 # 10000) AWP.awp_init sample_params)
                    [("encoder.weight", mkParam [9; 9] (Some [1; 1]) true)]) !! "encoder.weight"
  = AWP.backup_eps (AWP._save "weight" (1 # 10000) AWP.awp_init sample_params) !! "encoder.weight".
Proof.
  refine (AWPFacts.save_twice_keeps "weight" (1 # 10000) AWP.awp_init sample_params
            [("encoder.weight", mkParam [9; 9] (Some [1; 1]) true)] "encoder.weight" _).
  vm_compute. eexists. reflexivity.
Defined.

Lemma zero_norm_saved_not_moved_witness :
  is_Some (AWP.backup (AWP._save "weight" (1 # 10000) AWP.awp_init sample_params)
             !! "decoder.weight") /\
  In ("decoder.weight", mkParam [2] (Some [0]) true)
     (AWP._attack_step "weight" 1 frob_norm no_nan
        (AWP._save "weight" (1 # 10000) AWP.awp_init sample_params) sample_params).1.
Proof.
  refine (AWPFacts.zero_norm_saved_not_moved "weight" 1 (1 # 10000) frob_norm no_nan
            AWP.awp_init sample_params "decoder.weight" (mkParam [2] (Some [0]) true) [0]
            _ _ _ _).
  - simpl. right. right. left. reflexivity.
  - vm_compute. reflexivity.
  - reflexivity.
  - left. vm_compute. reflexivity.
Defined.

Lemma unmatched_never_written_witness :
  AWP.backup (AWP._save "weight" (1 # 10000) AWP.awp_init sample_params) !! "encoder.bias"
    = None /\
  In ("encoder.bias", mkParam [5] (Some [1]) true)
     (AWP._attack_step "weight" 1 frob_norm no_nan
        (AWP._save "weight" (1 # 10000) AWP.awp_init sample_params) sample_params).1 /\
  (forall (ps' : named) q, In ("encoder.bias", q) ps' ->
     In ("encoder.bias", q)
        (AWP._restore (AWP._save "weight" (1 # 10000) AWP.awp_init sample_params) ps').2).
Proof.
  refine (AWPFacts.unmatched_never_written "weight" 1 (1 # 10000) frob_norm no_nan
            unit Q sample_forward sample_zero_grad sample_backward
            AWP.awp_init sample_params "encoder.bias" (mkParam [5] (Some [1]) true)
            _ _ _ _).
  - apply AWP.reachable_init.
  - apply (bool_decide_unpack _). vm_compute. reflexivity.
  - simpl. right. left. reflexivity.
  - vm_compute. reflexivity.
Defined.

Local Abbreviation saved := (AWP._save "weight" (1 # 10000) AWP.awp_init sample_params).

Lemma save_backs_up_exactly_matched_witness :
  (forall n v, AWP.backup saved !! n = Some v <->
     exists p, In (n, p) sample_params /\ AWP.matched "weight" n p = true /\ v = data p) /\
  (forall n p, In (n, p) sample_params -> AWP.matched "weight" n p = true ->
     AWP.backup_eps saved !! n = Some (AWPFacts.clamp_interval (1 # 10000) (data p))).
Proof.
  refine (AWPFacts.save_backs_up_exactly_matched "weight" 1 (1 # 10000) frob_norm no_nan
            unit Q sample_forward sample_zero_grad sample_backward
            AWP.awp_init sample_params _ _).
  - apply AWP.reachable_init.
  - apply (bool_decide_unpack _). vm_compute. reflexivity.
Defined.

Lemma restore_after_save_witness : (AWP._restore saved sample_params).2 = sample_params.
Proof.
  refine (AWPFacts.restore_after_save "weight" 1 (1 # 10000) frob_norm no_nan
            unit Q sample_forward sample_zero_grad sample_backward
            AWP.awp_init sample_params _ _).
  - apply AWP.reachable_init.
  - apply (bool_decide_unpack _). vm_compute. reflexivity.
Defined.

Lemma restore_undoes_attack_witness :
  (AWP._restore saved (AWP._attack_step "weight" 1 frob_norm no_nan saved sample_params).1).2
    = sample_params.
Proof.
  refine (AWPFacts.restore_undoes_attack "weight" 1 (1 # 10000) frob_norm no_nan
            unit Q sample_forward sample_zero_grad sample_backward
            AWP.awp_init sample_params _ _).
  - apply AWP.reachable_init.
  - apply (bool_decide_unpack _). vm_compute. reflexivity.
Defined.

Lemma attack_step_missing_interval_witness :
  AWP._attack_step "weight" 1 frob_norm no_nan AWP.awp_init
    ([("encoder.bias", mkParam [5] (Some [1]) true)] ++ ("encoder.weight", p_weight)
       :: [("decoder.weight", mkParam [2] (Some [0]) true)]) =
  (map (fun np => (AWP.attack_one "weight" 1 frob_norm no_nan AWP.awp_init np).1)
       [("encoder.bias", mkParam [5] (Some [1]) true)] ++
   ("encoder.weight", set_data p_weight (zip_with Qplus (data p_weight)
       (map (fun gi => 1 * gi / (frob_norm [3; 4] + AWP.e) * (frob_norm (data p_weight) + AWP.e))
            [3; 4])))
   :: [("decoder.weight", mkParam [2] (Some [0]) true)], false).
Proof.
  refine (AWPFacts.attack_step_missing_interval "weight" 1 frob_norm no_nan
            AWP.awp_init [("encoder.bias", mkParam [5] (Some [1]) true)]
            "encoder.weight" p_weight [3; 4] [("decoder.weight", mkParam [2] (Some [0]) true)]
            _ _ _ _ _ _).
  - intros np [<-|[]]. vm_compute. reflexivity.
  - vm_compute. reflexivity.
  - reflexivity.
  - vm_compute. reflexivity.
  - reflexivity.
  - vm_compute. reflexivity.
Defined.

Lemma attack_step_zero_eps_noop_witness :
  Forall2 (fun np np' => np'.1 = np.1 /\ Forall2 Qeq (data np'.2) (data np.2))
    sample_params
    (AWP._attack_step "weight" 1 frob_norm no_nan
       (AWP._save "weight" 0 AWP.awp_init sample_params) sample_params).1.
Proof.
  refine (AWPFacts.attack_step_zero_eps_noop "weight" 1 0 frob_norm no_nan
            unit Q sample_forward sample_zero_grad sample_backward
            AWP.awp_init sample_params _ _ _ _).
  - apply AWP.reachable_init.
  - apply (bool_decide_unpack _). vm_compute. reflexivity.
  - reflexivity.
  - intros n p g Hin Hg.
    destruct Hin as [Hin|[Hin|[Hin|[Hin|[]]]]]; inversion Hin; subst;
      simpl in Hg; inversion Hg; reflexivity.
Defined.

Lemma save_attack_no_key_error_witness :
  (AWP._attack_step "weight" 1 frob_norm no_nan saved sample_params).2 = true /\
  exists ps', AWP.attack_backward "weight" 1 (1 # 10000) frob_norm no_nan unit Q
                sample_forward sample_zero_grad sample_backward AWP.awp_init sample_params tt
              = AWP.Returned AWP.awp_init ps' [AWP.Forward; AWP.ZeroGrad; AWP.Backward].
Proof.
  refine (AWPFacts.save_attack_no_key_error "weight" 1 (1 # 10000) frob_norm no_nan
            unit Q sample_forward sample_zero_grad sample_backward
            AWP.awp_init sample_params tt _ _).
  - apply AWP.reachable_init.
  - vm_compute. reflexivity.
Defined.

Lemma attack_backward_weights_restored_witness :
  exists ps', AWP.attack_backward "weight" 1 (1 # 10000) frob_norm no_nan unit Q
                sample_forward sample_zero_grad sample_backward AWP.awp_init sample_params tt
              = AWP.Returned AWP.awp_init ps' [AWP.Forward; AWP.ZeroGrad; AWP.Backward] /\
              weights ps' = weights sample_params.
Proof.
  refine (AWPFacts.attack_backward_weights_restored "weight" 1 (1 # 10000) frob_norm no_nan
            unit Q sample_forward sample_zero_grad sample_backward
            AWP.awp_init sample_params tt _ _ _ _ _).
  - apply AWP.reachable_init.
  - apply (bool_decide_unpack _). vm_compute. reflexivity.
  - vm_compute. reflexivity.
  - intros l. unfold sample_zero_grad, weights. rewrite map_map. reflexivity.
  - intros loss l. unfold sample_backward, weights. rewrite map_map. reflexivity.
Defined.

Abbreviation cycle_params :=
  [("encoder.weight", mkParam [1; 2] (Some [17.00030000; 17.00030000]) true);
   ("encoder.bias", mkParam [5] (Some [17.00030000]) true);
   ("decoder.weight", mkParam [2] (Some [17.00030000]) true);
   ("embeddings.weight", mkParam [7] (Some [17.00030000]) false)].

Lemma attack_backward_keeps_adv_grads_witness :
  let ps1 := (AWP._attack_step "weight" 1 frob_norm no_nan saved sample_params).1 in
  AWPFacts.shape cycle_params =
    AWPFacts.shape (sample_backward (sample_forward ps1 tt) (sample_zero_grad ps1)) /\
  [AWP.Forward; AWP.ZeroGrad; AWP.Backward] = [AWP.Forward; AWP.ZeroGrad; AWP.Backward].
Proof.
  refine (AWPFacts.attack_backward_keeps_adv_grads "weight" 1 (1 # 10000) frob_norm no_nan
            unit Q sample_forward sample_zero_grad sample_backward
            AWP.awp_init sample_params tt AWP.awp_init cycle_params
            [AWP.Forward; AWP.ZeroGrad; AWP.Backward] _ _).
  - vm_compute. reflexivity.
  - vm_compute. reflexivity.
Defined.

Lemma freeze_keeps_last_layer_witness :
  exists bb', Matcha.freeze_encoder 3 sample_backbone = Some bb' /\
    Matcha.encoder_layer bb' !! 2%nat = Matcha.encoder_layer sample_backbone !! 2%nat /\
    ((3 <= 2)%nat -> Matcha.encoder_layer bb' = Matcha.encoder_layer sample_backbone).
Proof.
  refine (MatchaFacts.freeze_keeps_last_layer 3 sample_backbone _ _).
  - lia.
  - reflexivity.
Defined.

Lemma frozen_never_attacked_witness :
  AWP.attack_one "weight" 1 frob_norm no_nan AWP.awp_init
    ("encoder.layer.0.weight", mkParam [1; 2] (Some [3; 4]) false) =
    (("encoder.layer.0.weight", mkParam [1; 2] (Some [3; 4]) false), true) /\
  AWP.save_one "weight" (1 # 10000) AWP.awp_init
    ("encoder.layer.0.weight", mkParam [1; 2] (Some [3; 4]) false) = AWP.awp_init.
Proof.
  refine (MatchaFacts.frozen_never_attacked "weight" 1 (1 # 10000) frob_norm no_nan 3 1
            sample_backbone
            (Matcha.mkBackbone
               (map Matcha.freeze_params (firstn 1 (Matcha.encoder_layer sample_backbone))
                  ++ skipn 1 (Matcha.encoder_layer sample_backbone))
               (Matcha.freeze_params (Matcha.embeddings sample_backbone))
               (Matcha.other_params sample_backbone))
            AWP.awp_init ("encoder.layer.0.weight", mkParam [1; 2] (Some [3; 4]) false)
            _ _ _).
  - vm_compute. reflexivity.
  - vm_compute. reflexivity.
  - right. exists 0%nat, [("encoder.layer.0.weight", mkParam [1; 2] (Some [3; 4]) false)].
    split; [lia|]. split; [vm_compute; reflexivity | left; reflexivity].
Defined.

(** C2 fails for a negative [adv_eps]: the interval [_save] computes for
    [encoder.weight] is [[3/2, 3], [1/2, 1]], and after [_attack_step] the
    parameter holds [[1/2, 1]], below [lower] in both elements. *)
Lemma attack_step_within_interval_counterexample :
  AWP.backup_eps (AWP._save "weight" (-1 # 2) AWP.awp_init sample_params) !! "encoder.weight"
    = Some ([3 # 2; 6 # 2], [1 # 2; 2 # 2]) /\
  In ("encoder.weight", mkParam [1 # 2; 2 # 2] (Some [3; 4]) true)
     (AWP._attack_step "weight" 1 frob_norm no_nan
        (AWP._save "weight" (-1 # 2) AWP.awp_init sample_params) sample_params).1 /\
  AWP.matched "weight" "encoder.weight" p_weight = true /\
  ~ (3 # 2 <= 1 # 2).
Proof.
  split; [vm_compute; reflexivity|].
  split; [vm_compute; left; reflexivity|].
  split; [vm_compute; reflexivity|].
  vm_compute. intros H. apply H. reflexivity.
Qed.

End Witnesses.
